(** * Item service and process configuration

    A shallow embedding of [src/modules/item/services/item.service.ts] and
    [src/config.ts].

    The service is written against the mongoose model [Item]; its calls are
    kept as the operations of a class ([Models.ItemModel]) so that the
    service reads as in the source and can be run against any store.  The
    store used for the functional claims is [Mongo.Collection]: the
    documents of the collection in natural order, where duplicates may or
    may not be refused depending on the schema. *)

From Stdlib Require Import ZArith Floats Ascii String.
From stdpp Require Import base option list strings gmap.

Local Open Scope Z_scope.

(** ** Promises as state passing

    An [async] method is a function of the store state that settles either
    fulfilled with a value or rejected with the thrown exception, and leaves
    a store state behind. *)

Inductive settled (E A : Type) : Type :=
| Fulfilled (a : A)
| Rejected (e : E).
Arguments Fulfilled {E A} a.
Arguments Rejected {E A} e.

Definition Promise (St E A : Type) : Type := St -> settled E A * St.

Definition resolve {St E A} (a : A) : Promise St E A :=
  fun s => (Fulfilled a, s).

Definition throw {St E A} (e : E) : Promise St E A :=
  fun s => (Rejected e, s).

(** [x <- m ;; k] is [const x = await m; k]: a rejection of [m] rejects the
    whole method and the continuation is not run. *)
Definition bind {St E A B} (m : Promise St E A) (k : A -> Promise St E B)
  : Promise St E B :=
  fun s =>
    match m s with
    | (Fulfilled a, s') => k a s'
    | (Rejected e, s') => (Rejected e, s')
    end.

Declare Scope promise_scope.
Delimit Scope promise_scope with promise.
Notation "x <- m ;; k" :=
  (bind m (fun x => k))
  (at level 100, m at next level, right associativity) : promise_scope.

(** ** ../dtos *)

Module Dtos.

(** Modelled from the spec: the declaration of [ItemDTO] is not among the
    sources.  "ItemDTO (transfer shape): same three fields as Item":
    [id] (integer), [name] (string), [price] (numeric).  The service never
    computes with a price, so its carrier is a parameter. *)
Record ItemDTO (Price : Type) : Type := mkItemDTO {
  id : Z;
  name : string;
  price : Price;
}.
Arguments mkItemDTO {Price} id name price.
Arguments id {Price} _.
Arguments name {Price} _.
Arguments price {Price} _.

End Dtos.

(** ** ../errors *)

Module Errors.

(** What a service method can be rejected with: the domain error the
    service throws itself, or whatever the store call was rejected with. *)
Inductive exn (SErr : Type) : Type :=
| ItemNotFoundError
| StoreError (e : SErr).
Arguments ItemNotFoundError {SErr}.
Arguments StoreError {SErr} e.

End Errors.

(** ** ../models *)

Module Models.

(** Modelled from the spec: the schema of [Item] is not among the sources.
    "Item (persisted entity): fields - id (integer), name (string), price
    (numeric)". *)
Record DocumentItem (Price : Type) : Type := mkDocumentItem {
  id : Z;
  name : string;
  price : Price;
}.
Arguments mkDocumentItem {Price} id name price.
Arguments id {Price} _.
Arguments name {Price} _.
Arguments price {Price} _.

(** Modelled from the spec: [new Item(dto)], "constructs ... a new Item
    from the DTO's id, name, price". *)
Definition Item {Price} (dto : Dtos.ItemDTO Price) : DocumentItem Price :=
  {| id := Dtos.id dto; name := Dtos.name dto; price := Dtos.price dto |}.

(** The calls the service makes on the model.  The filter is always
    [{ id }] and the patch always [{ name, price }]; the last argument of
    [findOneAndUpdate] is the option [new]. *)
Class ItemModel (Price St SErr : Type) : Type := {
  find : Promise St SErr (list (DocumentItem Price));
  findOne : Z -> Promise St SErr (option (DocumentItem Price));
  findOneAndUpdate :
    Z -> string * Price -> bool -> Promise St SErr (option (DocumentItem Price));
  findOneAndDelete : Z -> Promise St SErr (option (DocumentItem Price));
  save : DocumentItem Price -> Promise St SErr (DocumentItem Price);
}.

End Models.

(** ** ../utils *)

Module Utils.

(** Modelled from the spec: [toDTO] is not among the sources.  "Mapping
    Item -> ItemDTO is a pure, total, structure-preserving projection; no
    field is dropped or renamed". *)
Definition toDTO {Price} (item : Models.DocumentItem Price) : Dtos.ItemDTO Price :=
  {| Dtos.id := Models.id item;
     Dtos.name := Models.name item;
     Dtos.price := Models.price item |}.

End Utils.

(** ** item.service.ts *)

Module ItemService.
Import Errors Utils.

(** The value [null] that [delete] returns. *)
Inductive Null : Type := null.

Section Service.
Context {Price St SErr : Type} `{!Models.ItemModel Price St SErr}.

(** A store call inside a service method: its rejection is rethrown as
    it is. *)
Definition store {A} (m : Promise St SErr A) : Promise St (exn SErr) A :=
  fun s =>
    match m s with
    | (Fulfilled a, s') => (Fulfilled a, s')
    | (Rejected e, s') => (Rejected (StoreError e), s')
    end.

Local Open Scope promise_scope.

Definition list : Promise St (exn SErr) (Datatypes.list (Dtos.ItemDTO Price)) :=
  items <- store Models.find ;;
  resolve (map (fun item => toDTO item) items).

Definition get (id : Z) : Promise St (exn SErr) (Dtos.ItemDTO Price) :=
  item <- store (Models.findOne id) ;;
  match item with
  | None => throw ItemNotFoundError
  | Some item => resolve (toDTO item)
  end.

Definition create (dto : Dtos.ItemDTO Price)
  : Promise St (exn SErr) (Dtos.ItemDTO Price) :=
  let newItem := Models.Item dto in
  createdItem <- store (Models.save newItem) ;;
  resolve (toDTO createdItem).

Definition update (dto : Dtos.ItemDTO Price)
  : Promise St (exn SErr) (Dtos.ItemDTO Price) :=
  let id := Dtos.id dto in
  let name := Dtos.name dto in
  let price := Dtos.price dto in
  item <- store (Models.findOneAndUpdate id (name, price) true) ;;
  match item with
  | None => throw ItemNotFoundError
  | Some item => resolve (toDTO item)
  end.

Definition delete (id : Z) : Promise St (exn SErr) Null :=
  item <- store (Models.findOneAndDelete id) ;;
  match item with
  | None => throw ItemNotFoundError
  | Some _ => resolve null
  end.

End Service.

End ItemService.

(** ** The collection behind the model

    The documents of the [Item] collection in natural (insertion) order.
    Whether the schema puts a unique index on [id] is not visible from the
    service, so it is a field of the state: with the index a [save] of a
    second document with a stored [id] is rejected with a duplicate-key
    error, without it the document is appended. *)

Module Mongo.
Import Models.

Inductive MongoError : Type :=
| DuplicateKey (id : Z).

Record Collection (Price : Type) : Type := mkCollection {
  documents : list (DocumentItem Price);
  uniqueId : bool;
}.
Arguments mkCollection {Price} documents uniqueId.
Arguments documents {Price} _.
Arguments uniqueId {Price} _.

Section Operations.
Context {Price : Type}.
Implicit Types (docs : list (DocumentItem Price)) (c : Collection Price).

(** The filter [{ id }]. *)
Definition matches (i : Z) (doc : DocumentItem Price) : bool := id doc =? i.

Fixpoint firstMatch (i : Z) docs : option (DocumentItem Price) :=
  match docs with
  | [] => None
  | doc :: rest => if matches i doc then Some doc else firstMatch i rest
  end.

(** The patch [{ name, price }], a [$set] of these two paths. *)
Definition patch (p : string * Price) (doc : DocumentItem Price)
  : DocumentItem Price :=
  {| id := id doc; name := p.1; price := p.2 |}.

Fixpoint updateFirst (i : Z) (p : string * Price) docs
  : list (DocumentItem Price) :=
  match docs with
  | [] => []
  | doc :: rest =>
      if matches i doc then patch p doc :: rest
      else doc :: updateFirst i p rest
  end.

Fixpoint deleteFirst (i : Z) docs : list (DocumentItem Price) :=
  match docs with
  | [] => []
  | doc :: rest => if matches i doc then rest else doc :: deleteFirst i rest
  end.

Definition withDocuments c docs : Collection Price :=
  {| documents := docs; uniqueId := uniqueId c |}.

Definition collection_find
  : Promise (Collection Price) MongoError (list (DocumentItem Price)) :=
  fun c => (Fulfilled (documents c), c).

Definition collection_findOne (i : Z)
  : Promise (Collection Price) MongoError (option (DocumentItem Price)) :=
  fun c => (Fulfilled (firstMatch i (documents c)), c).

Definition collection_findOneAndUpdate (i : Z) (p : string * Price) (new : bool)
  : Promise (Collection Price) MongoError (option (DocumentItem Price)) :=
  fun c =>
    match firstMatch i (documents c) with
    | None => (Fulfilled None, c)
    | Some doc =>
        (Fulfilled (Some (if new then patch p doc else doc)),
         withDocuments c (updateFirst i p (documents c)))
    end.

Definition collection_findOneAndDelete (i : Z)
  : Promise (Collection Price) MongoError (option (DocumentItem Price)) :=
  fun c =>
    match firstMatch i (documents c) with
    | None => (Fulfilled None, c)
    | Some doc =>
        (Fulfilled (Some doc), withDocuments c (deleteFirst i (documents c)))
    end.

Definition collection_save (doc : DocumentItem Price)
  : Promise (Collection Price) MongoError (DocumentItem Price) :=
  fun c =>
    match uniqueId c, firstMatch (id doc) (documents c) with
    | true, Some _ => (Rejected (DuplicateKey (id doc)), c)
    | _, _ => (Fulfilled doc, withDocuments c (documents c ++ [doc]))
    end.

#[export] Instance collection_model
  : ItemModel Price (Collection Price) MongoError := {|
  find := collection_find;
  findOne := collection_findOne;
  findOneAndUpdate := collection_findOneAndUpdate;
  findOneAndDelete := collection_findOneAndDelete;
  save := collection_save;
|}.

(** Some stored document has this [id]. *)
Definition stored (i : Z) c : Prop :=
  exists doc, doc ∈ documents c /\ id doc = i.

End Operations.

End Mongo.

(** ** config.ts *)

Module Config.

(** Strings are sequences of code units below 256. *)

(** [StrWhiteSpaceChar], as far as it lies below 256: TAB, LF, VT, FF, CR,
    SP and NBSP. *)
Definition isWhiteSpace (c : ascii) : bool :=
  bool_decide (N_of_ascii c ∈ [9; 10; 11; 12; 13; 32; 160]%N).

Fixpoint trimStart (s : string) : string :=
  match s with
  | String c rest => if isWhiteSpace c then trimStart rest else s
  | EmptyString => s
  end.

(** The value of a digit [0-9a-zA-Z]. *)
Definition digitValue (c : ascii) : option Z :=
  let n := Z.of_N (N_of_ascii c) in
  if (48 <=? n) && (n <=? 57) then Some (n - 48)
  else if (97 <=? n) && (n <=? 122) then Some (n - 87)
  else if (65 <=? n) && (n <=? 90) then Some (n - 55)
  else None.

(** The digits of the longest prefix made of radix-[R] digits. *)
Fixpoint radixDigits (R : Z) (s : string) : list Z :=
  match s with
  | String c rest =>
      match digitValue c with
      | Some d => if d <? R then d :: radixDigits R rest else []
      | None => []
      end
  | EmptyString => []
  end.

Definition mathInt (R : Z) (ds : list Z) : Z :=
  foldl (fun acc d => acc * R + d) 0 ds.

(** The Number value of an integer: round to nearest binary64, ties to
    even. *)
Definition toNumber (z : Z) : float :=
  SF2Prim (binary_normalize prec emax z 0 false).

Definition stripSign (s : string) : string :=
  match s with
  | String "+"%char rest | String "-"%char rest => rest
  | _ => s
  end.

(** The builtin [parseInt(string, radix)], for a radix already an Int32. *)
Definition parseInt (input : string) (radix : Z) : float :=
  let inputString := trimStart input in
  let sign := match inputString with String "-"%char _ => -1 | _ => 1 end in
  let unsigned := stripSign inputString in
  if negb (radix =? 0) && ((radix <? 2) || (36 <? radix)) then nan
  else
    let stripPrefix := (radix =? 0) || (radix =? 16) in
    let R := if radix =? 0 then 10 else radix in
    let '(body, R) :=
      match stripPrefix, unsigned with
      | true, String "0"%char (String "x"%char rest)
      | true, String "0"%char (String "X"%char rest) => (rest, 16)
      | _, _ => (unsigned, R)
      end in
    match radixDigits R body with
    | [] => nan
    | ds =>
        let m := mathInt R ds in
        if m =? 0 then (if sign =? -1 then neg_zero else PrimFloat.zero)
        else toNumber (sign * m)
    end.

(** [a || b] for [a : string | undefined]: [undefined] and the empty
    string are falsy. *)
Definition orElse (a : option string) (b : string) : string :=
  match a with
  | Some s => if decide (s = "") then b else s
  | None => b
  end.

(** [dotenv.config]: the variables parsed from the file (none when the file
    is missing) are added to [process.env]; a variable already set keeps
    its value. *)
Definition dotenv_config (file : option (gmap string string))
    (env : gmap string string) : gmap string string :=
  env ∪ default ∅ file.

Record Configuration : Type := mkConfiguration {
  port : float;
  dbConnectionString : string;
}.

(** The exported constant, as a function of [process.env] as it is when
    the object literal is evaluated. *)
Definition configuration (env : gmap string string) : Configuration :=
  {| port := parseInt (orElse (env !! "PORT") "3000") 10;
     dbConnectionString := orElse (env !! "DB_CONNECTION_STRING") "" |}.

(** Loading the module: [dotenv.config] first, then the constant. *)
Definition load (file : option (gmap string string))
    (env : gmap string string) : Configuration :=
  configuration (dotenv_config file env).

(** A string with no decimal digit after its leading white space and
    optional sign. *)
Definition nonNumeric (s : string) : Prop :=
  radixDigits 10 (stripSign (trimStart s)) = [].

End Config.

(** ** A method against the store call it awaits *)

Section Outcomes.
Import Errors.
Context {St SErr A B : Type}.

(** [method] makes the one store call [call] and settles with it: a
    rejection of the call is the rejection of the method, wrapped in
    nothing and with the state the call left; a call fulfilled with a
    [missing] value rejects the method with [ItemNotFoundError]; any other
    fulfilment fulfils the method. *)
Definition settles_with (call : Promise St SErr A) (missing : A -> bool)
    (method : Promise St (exn SErr) B) : Prop :=
  forall s,
    match call s with
    | (Rejected e, s') => method s = (Rejected (StoreError e), s')
    | (Fulfilled a, s') =>
        if missing a then method s = (Rejected ItemNotFoundError, s')
        else exists b, method s = (Fulfilled b, s')
    end.

(** [!item] for [item : DocumentItem | null]. *)
Definition isNull {T} (item : option T) : bool :=
  match item with
  | None => true
  | Some _ => false
  end.

End Outcomes.

(** ** Sample data: the scenario of the specification *)

Module Samples.
Import Models Mongo.
#[local] Set Warnings "-inexact-float".

Definition widget : Dtos.ItemDTO float :=
  {| Dtos.id := 1; Dtos.name := "Widget"; Dtos.price := 9.99%float |}.

Definition cheaperWidget : Dtos.ItemDTO float :=
  {| Dtos.id := 1; Dtos.name := "Widget"; Dtos.price := 7.49%float |}.

Definition gadget : Dtos.ItemDTO float :=
  {| Dtos.id := 2; Dtos.name := "Gadget"; Dtos.price := 20%float |}.

Definition gizmo : Dtos.ItemDTO float :=
  {| Dtos.id := 3; Dtos.name := "Gizmo"; Dtos.price := 0.5%float |}.

Definition emptyShop (unique : bool) : Collection float :=
  {| documents := []; uniqueId := unique |}.

(** A collection holding the widget and the gadget. *)
Definition shop (unique : bool) : Collection float :=
  {| documents := [Item widget; Item gadget]; uniqueId := unique |}.

End Samples.

(** ** Sequences of service calls *)

Module Session.
Import Models Mongo.

(** No two stored documents have the same [id]. *)
Definition uniqueIds {Price} (c : Collection Price) : Prop :=
  NoDup (id <$> documents c).

(** One call of a service method, with its arguments. *)
Inductive call (Price : Type) : Type :=
| List
| Get (id : Z)
| Create (dto : Dtos.ItemDTO Price)
| Update (dto : Dtos.ItemDTO Price)
| Delete (id : Z).
Arguments List {Price}.
Arguments Get {Price} id.
Arguments Create {Price} dto.
Arguments Update {Price} dto.
Arguments Delete {Price} id.

(** The collection a call leaves behind, whether fulfilled or rejected. *)
Definition perform {Price} (k : call Price) (c : Collection Price)
  : Collection Price :=
  match k with
  | List => (ItemService.list c).2
  | Get i => (ItemService.get i c).2
  | Create dto => (ItemService.create dto c).2
  | Update dto => (ItemService.update dto c).2
  | Delete i => (ItemService.delete i c).2
  end.

Definition performAll {Price} (ks : list (call Price)) (c : Collection Price)
  : Collection Price :=
  foldl (fun c k => perform k c) c ks.

End Session.

(** ** Shapes of the value of [PORT] *)

Module Numerals.
Import Config.

Definition isDecimalDigit (c : ascii) : bool :=
  match digitValue c with
  | Some d => d <? 10
  | None => false
  end.

Fixpoint allDecimalDigits (s : string) : bool :=
  match s with
  | String c rest => isDecimalDigit c && allDecimalDigits rest
  | EmptyString => true
  end.

Definition startsWithDecimalDigit (s : string) : bool :=
  match s with
  | String c _ => isDecimalDigit c
  | EmptyString => false
  end.

Fixpoint allWhiteSpace (s : string) : bool :=
  match s with
  | String c rest => isWhiteSpace c && allWhiteSpace rest
  | EmptyString => true
  end.

End Numerals.

(** * Facts about the collection *)

Section CollectionFacts.
Import Models Mongo.
Context {Price : Type}.
Implicit Types (docs before after : list (DocumentItem Price))
  (doc : DocumentItem Price) (c : Collection Price) (i : Z).

Lemma matches_true i doc : matches i doc = true <-> id doc = i.
Proof. unfold matches. apply Z.eqb_eq. Qed.

Lemma matches_false i doc : matches i doc = false <-> id doc ≠ i.
Proof. unfold matches. apply Z.eqb_neq. Qed.

Lemma firstMatch_None i docs :
  firstMatch i docs = None <-> Forall (fun doc => id doc ≠ i) docs.
Proof.
  induction docs as [|doc rest IH]; simpl.
  - split; [constructor | reflexivity].
  - rewrite Forall_cons. destruct (matches i doc) eqn:Hm.
    + apply matches_true in Hm. split; [discriminate | tauto].
    + apply matches_false in Hm. tauto.
Qed.

(** [firstMatch] returns the first document, in natural order, that has
    the [id]. *)
Lemma firstMatch_Some i docs doc :
  firstMatch i docs = Some doc <->
  exists before after,
    docs = before ++ doc :: after /\ id doc = i /\
    Forall (fun d => id d ≠ i) before.
Proof.
  induction docs as [|d rest IH]; simpl.
  - split; [discriminate |].
    intros (before & after & Heq & _). by destruct before.
  - destruct (matches i d) eqn:Hm.
    + apply matches_true in Hm. split.
      * intros [= ->]. exists [], rest. auto.
      * intros (before & after & Heq & Hid & Hb).
        destruct before as [|d' before]; simpl in Heq.
        -- congruence.
        -- injection Heq as -> _. apply Forall_cons in Hb as [Hd _]. done.
    + apply matches_false in Hm. rewrite IH. split.
      * intros (before & after & -> & Hid & Hb).
        exists (d :: before), after. split; [done |]. split; [done |].
        by constructor.
      * intros (before & after & Heq & Hid & Hb).
        destruct before as [|d' before]; simpl in Heq.
        -- injection Heq as -> _. done.
        -- injection Heq as -> ->. apply Forall_cons in Hb as [_ Hb].
           eauto.
Qed.

Lemma stored_firstMatch i c :
  stored i c <-> is_Some (firstMatch i (documents c)).
Proof.
  unfold stored. split.
  - intros (doc & Hin & Hid).
    destruct (firstMatch i (documents c)) eqn:Hf; [by eexists |].
    apply firstMatch_None in Hf. rewrite Forall_forall in Hf.
    by destruct (Hf doc Hin).
  - intros [doc (before & after & Heq & Hid & _)%firstMatch_Some].
    exists doc. split; [| done]. rewrite Heq. set_solver.
Qed.

Lemma not_stored_firstMatch i c :
  ~ stored i c <-> firstMatch i (documents c) = None.
Proof.
  rewrite stored_firstMatch, <- eq_None_not_Some. done.
Qed.

Lemma updateFirst_split i p before doc after :
  Forall (fun d => id d ≠ i) before -> id doc = i ->
  updateFirst i p (before ++ doc :: after) = before ++ patch p doc :: after.
Proof.
  intros Hb Hid. induction Hb as [|d before Hd _ IH]; simpl.
  - apply matches_true in Hid. by rewrite Hid.
  - apply matches_false in Hd. by rewrite Hd, IH.
Qed.

Lemma deleteFirst_split i before doc after :
  Forall (fun d => id d ≠ i) before -> id doc = i ->
  deleteFirst i (before ++ doc :: after) = before ++ after.
Proof.
  intros Hb Hid. induction Hb as [|d before Hd _ IH]; simpl.
  - apply matches_true in Hid. by rewrite Hid.
  - apply matches_false in Hd. by rewrite Hd, IH.
Qed.

Lemma firstMatch_app_miss i before after :
  Forall (fun d => id d ≠ i) before ->
  firstMatch i (before ++ after) = firstMatch i after.
Proof.
  intros Hb. induction Hb as [|d before Hd _ IH]; simpl; [done |].
  apply matches_false in Hd. by rewrite Hd.
Qed.

(** The service methods run on the collection. *)

Lemma get_collection i c :
  ItemService.get i c =
  match firstMatch i (documents c) with
  | Some doc => (Fulfilled (Utils.toDTO doc), c)
  | None => (Rejected Errors.ItemNotFoundError, c)
  end.
Proof.
  unfold ItemService.get, bind, ItemService.store. simpl.
  unfold collection_findOne. by destruct (firstMatch i (documents c)).
Qed.

Lemma update_collection (dto : Dtos.ItemDTO Price) c :
  ItemService.update dto c =
  match firstMatch (Dtos.id dto) (documents c) with
  | Some doc =>
      (Fulfilled (Utils.toDTO (patch (Dtos.name dto, Dtos.price dto) doc)),
       withDocuments c
         (updateFirst (Dtos.id dto) (Dtos.name dto, Dtos.price dto)
            (documents c)))
  | None => (Rejected Errors.ItemNotFoundError, c)
  end.
Proof.
  unfold ItemService.update, bind, ItemService.store. simpl.
  unfold collection_findOneAndUpdate.
  by destruct (firstMatch (Dtos.id dto) (documents c)).
Qed.

Lemma delete_collection i c :
  ItemService.delete i c =
  match firstMatch i (documents c) with
  | Some doc =>
      (Fulfilled ItemService.null, withDocuments c (deleteFirst i (documents c)))
  | None => (Rejected Errors.ItemNotFoundError, c)
  end.
Proof.
  unfold ItemService.delete, bind, ItemService.store. simpl.
  unfold collection_findOneAndDelete.
  by destruct (firstMatch i (documents c)).
Qed.

Lemma create_collection (dto : Dtos.ItemDTO Price) c :
  ItemService.create dto c =
  match uniqueId c, firstMatch (Dtos.id dto) (documents c) with
  | true, Some _ =>
      (Rejected (Errors.StoreError (DuplicateKey (Dtos.id dto))), c)
  | _, _ =>
      (Fulfilled dto, withDocuments c (documents c ++ [Item dto]))
  end.
Proof.
  unfold ItemService.create, bind, ItemService.store. simpl.
  unfold collection_save. simpl. destruct dto as [i n p]; simpl.
  destruct (uniqueId c); [destruct (firstMatch i (documents c)) |]; done.
Qed.

Lemma list_collection c :
  ItemService.list c = (Fulfilled (map Utils.toDTO (documents c)), c).
Proof. reflexivity. Qed.

Lemma withDocuments_same c : withDocuments c (documents c) = c.
Proof. by destruct c. Qed.

End CollectionFacts.

(** * The service on the collection *)

Section ServiceOnCollection.
Import Models Mongo Errors Utils.
Context {Price : Type}.
Implicit Types (doc : DocumentItem Price) (c : Collection Price) (i : Z)
  (dto : Dtos.ItemDTO Price).

(** C1: [get(id)] is rejected with [ItemNotFoundError] exactly when no
    stored document has that [id]; when one has, [get(id)] is fulfilled
    with [toDTO] of the stored document with that [id] (the first one in
    natural order), and the collection is left as it was. *)
Theorem get_not_found_iff_absent i c :
  ((ItemService.get i c).1 = Rejected ItemNotFoundError <-> ~ stored i c) /\
  (stored i c ->
   exists before doc after,
     documents c = before ++ doc :: after /\ id doc = i /\
     Forall (fun d => id d ≠ i) before /\
     ItemService.get i c = (Fulfilled (toDTO doc), c)).
Proof.
  rewrite get_collection, not_stored_firstMatch, stored_firstMatch.
  destruct (firstMatch i (documents c)) as [doc|] eqn:Hf; simpl.
  - split; [split; discriminate |]. intros _.
    apply firstMatch_Some in Hf as (before & after & Heq & Hid & Hb).
    by exists before, doc, after.
  - split; [done |]. by intros [? ?].
Qed.

(** C2: when no stored document has the [id] of [dto], [create(dto)] is
    fulfilled with [dto] and a following [get(dto.id)] is fulfilled with
    [dto] too. *)
Theorem create_then_get dto c :
  ~ stored (Dtos.id dto) c ->
  exists c',
    ItemService.create dto c = (Fulfilled dto, c') /\
    ItemService.get (Dtos.id dto) c' = (Fulfilled dto, c').
Proof.
  intros Habs%not_stored_firstMatch.
  exists (withDocuments c (documents c ++ [Item dto])). split.
  - rewrite create_collection, Habs. by destruct (uniqueId c).
  - rewrite get_collection. simpl.
    rewrite firstMatch_app_miss by by apply firstMatch_None.
    simpl. unfold matches. simpl. rewrite Z.eqb_refl. by destruct dto.
Qed.

(** C3: when a document with the [id] of [dto] is stored, [update(dto)]
    replaces the first such document by one with the same [id] and the
    [name] and [price] of [dto]; every other document, and the order, are
    as before. *)
Theorem update_overwrites_name_price_only dto c :
  stored (Dtos.id dto) c ->
  exists before doc after,
    documents c = before ++ doc :: after /\
    id doc = Dtos.id dto /\
    Forall (fun d => id d ≠ Dtos.id dto) before /\
    documents (ItemService.update dto c).2 =
      before ++ {| id := id doc; name := Dtos.name dto;
                   price := Dtos.price dto |} :: after /\
    uniqueId (ItemService.update dto c).2 = uniqueId c.
Proof.
  intros [doc Hf]%stored_firstMatch. rewrite update_collection, Hf. simpl.
  apply firstMatch_Some in Hf as (before & after & Heq & Hid & Hb).
  exists before, doc, after. repeat split; try done.
  rewrite Heq. by apply updateFirst_split.
Qed.

(** C4: [update(dto)] is rejected with [ItemNotFoundError] exactly when no
    stored document has the [id] of [dto], and then the collection is
    unchanged; when one has, [update(dto)] is fulfilled with [toDTO] of
    the document as it is stored after the update. *)
Theorem update_not_found_iff_absent dto c :
  ((ItemService.update dto c).1 = Rejected ItemNotFoundError <->
   ~ stored (Dtos.id dto) c) /\
  (~ stored (Dtos.id dto) c -> (ItemService.update dto c).2 = c) /\
  (stored (Dtos.id dto) c ->
   exists doc',
     firstMatch (Dtos.id dto) (documents (ItemService.update dto c).2)
       = Some doc' /\
     (ItemService.update dto c).1 = Fulfilled (toDTO doc')).
Proof.
  rewrite update_collection, not_stored_firstMatch, stored_firstMatch.
  destruct (firstMatch (Dtos.id dto) (documents c)) as [doc|] eqn:Hf; simpl.
  - split; [split; discriminate |]. split; [discriminate |]. intros _.
    apply firstMatch_Some in Hf as (before & after & Heq & Hid & Hb).
    exists (patch (Dtos.name dto, Dtos.price dto) doc). split; [| done].
    rewrite Heq, updateFirst_split, firstMatch_app_miss by done.
    simpl. apply matches_true in Hid. unfold matches in *. simpl.
    by rewrite Hid.
  - split; [done |]. split; [done |]. by intros [? ?].
Qed.

(** C7: when a document with that [id] is stored, [delete(id)] is
    fulfilled with [null], the only value of its result type. *)
Theorem delete_returns_null i c :
  stored i c ->
  (ItemService.delete i c).1 = Fulfilled ItemService.null /\
  (forall v : ItemService.Null, v = ItemService.null).
Proof.
  intros [doc Hf]%stored_firstMatch. rewrite delete_collection, Hf.
  split; [done |]. by intros [].
Qed.

End ServiceOnCollection.

(** * The service on any store *)

Section ServiceOnAnyStore.
Import Models Mongo Errors Utils.
Context {Price : Type}.

(** C6: [list()] is fulfilled with [toDTO] of every stored document, one
    for each and in the order of the store; on an empty collection that is
    the empty sequence; and on no store at all is [list()] rejected with
    the domain error. *)
Theorem list_projects_every_document :
  (forall c : Collection Price,
     ItemService.list c = (Fulfilled (map toDTO (documents c)), c)) /\
  (forall unique,
     (ItemService.list (mkCollection (Price:=Price) [] unique)).1
       = Fulfilled []) /\
  (forall (St SErr : Type) (M : ItemModel Price St SErr) (s : St),
     (ItemService.list s).1 ≠ Rejected ItemNotFoundError).
Proof.
  split; [apply list_collection |]. split; [done |].
  intros St SErr M s. unfold ItemService.list, bind, ItemService.store.
  destruct (find s) as [[items|e] s']; simpl; discriminate.
Qed.

(** C8: [create(dto)] looks for no stored document with the same [id]: on
    no store is it rejected with [ItemNotFoundError]; on a collection
    without a unique index it is fulfilled and appends the document,
    whether or not the [id] is stored already; on a collection with the
    index and the [id] stored it is rejected with the duplicate-key error
    of the store. *)
Theorem create_makes_no_duplicate_check (dto : Dtos.ItemDTO Price) :
  (forall (St SErr : Type) (M : ItemModel Price St SErr) (s : St),
     (ItemService.create dto s).1 ≠ Rejected ItemNotFoundError) /\
  (forall c : Collection Price,
     uniqueId c = false ->
     ItemService.create dto c =
       (Fulfilled dto, withDocuments c (documents c ++ [Item dto]))) /\
  (forall c : Collection Price,
     uniqueId c = true -> stored (Dtos.id dto) c ->
     ItemService.create dto c =
       (Rejected (StoreError (DuplicateKey (Dtos.id dto))), c)).
Proof.
  split; [| split].
  - intros St SErr M s. unfold ItemService.create, bind, ItemService.store.
    destruct (save (Item dto) s) as [[item|e] s']; simpl; discriminate.
  - intros c Hu. by rewrite create_collection, Hu.
  - intros c Hu [doc Hf]%stored_firstMatch.
    by rewrite create_collection, Hu, Hf.
Qed.

(** C9: each of the five methods settles with the single store call it
    awaits.  A rejection of that call is the rejection of the method, with
    the same error and the state the call left; the only other rejection
    is [ItemNotFoundError], raised by [get], [update] and [delete] when
    the call is fulfilled with [null]. *)
Theorem store_failures_propagate_unchanged
    (St SErr : Type) (M : ItemModel Price St SErr) :
  settles_with find (fun _ => false) ItemService.list /\
  (forall i, settles_with (findOne i) isNull (ItemService.get i)) /\
  (forall dto : Dtos.ItemDTO Price,
     settles_with (save (Item dto)) (fun _ => false) (ItemService.create dto)) /\
  (forall dto : Dtos.ItemDTO Price,
     settles_with
       (findOneAndUpdate (Dtos.id dto) (Dtos.name dto, Dtos.price dto) true)
       isNull (ItemService.update dto)) /\
  (forall i, settles_with (findOneAndDelete i) isNull (ItemService.delete i)).
Proof.
  repeat split; intros; intros s.
  - unfold ItemService.list, bind, ItemService.store.
    destruct (find s) as [[items|e] s']; simpl; eauto.
  - unfold ItemService.get, bind, ItemService.store.
    destruct (findOne i s) as [[[item|]|e] s']; simpl; eauto.
  - unfold ItemService.create, bind, ItemService.store.
    destruct (save (Item dto) s) as [[item|e] s']; simpl; eauto.
  - unfold ItemService.update, bind, ItemService.store. simpl.
    destruct (findOneAndUpdate _ _ _ s) as [[[item|]|e] s']; simpl; eauto.
  - unfold ItemService.delete, bind, ItemService.store.
    destruct (findOneAndDelete i s) as [[[item|]|e] s']; simpl; eauto.
Qed.

End ServiceOnAnyStore.

(** * The configuration *)

Section Configuration.
Import Config.
Local Open Scope string_scope.

Lemma orElse_set (s d : string) : s ≠ "" -> orElse (Some s) d = s.
Proof. intros Hs. unfold orElse. by destruct (decide (s = "")). Qed.

Lemma parseInt_nonNumeric (s : string) : nonNumeric s -> parseInt s 10 = nan.
Proof.
  unfold nonNumeric, parseInt. simpl. intros Hs. by rewrite Hs.
Qed.

(** C10: the configuration is a function of the environment, and of the
    two variables it reads only.  [dbConnectionString] is
    [DB_CONNECTION_STRING] when that is set and not empty, and the empty
    string otherwise; [port] is [parseInt(PORT, 10)] when [PORT] is set and
    not empty, which is [NaN] when [PORT] has no leading decimal digit, and
    3000 otherwise. *)
Theorem configuration_from_environment (env : gmap string string) :
  (forall s, env !! "DB_CONNECTION_STRING" = Some s -> s ≠ "" ->
     dbConnectionString (configuration env) = s) /\
  (env !! "DB_CONNECTION_STRING" = None \/
   env !! "DB_CONNECTION_STRING" = Some "" ->
     dbConnectionString (configuration env) = "") /\
  (forall s, env !! "PORT" = Some s -> s ≠ "" ->
     port (configuration env) = parseInt s 10 /\
     (nonNumeric s -> port (configuration env) = nan)) /\
  (env !! "PORT" = None \/ env !! "PORT" = Some "" ->
     port (configuration env) = 3000%float) /\
  (forall env' : gmap string string,
     env' !! "PORT" = env !! "PORT" ->
     env' !! "DB_CONNECTION_STRING" = env !! "DB_CONNECTION_STRING" ->
     configuration env' = configuration env) /\
  (forall file env0, env = dotenv_config file env0 ->
     load file env0 = configuration env).
Proof.
  unfold configuration. simpl. split; [| split; [| split; [| split; [| split]]]].
  - intros s -> Hs. by apply orElse_set.
  - by intros [-> | ->].
  - intros s -> Hs. rewrite orElse_set by done. split; [done |].
    apply parseInt_nonNumeric.
  - by intros [-> | ->].
  - by intros env' -> ->.
  - by intros file env0 ->.
Qed.

End Configuration.

(** * The claims at the sample data *)

Section Scenario.
Import Models Mongo Errors Utils Samples.

Lemma get_not_found_iff_absent_witness :
  (stored 2 (shop false) /\
   exists before doc after,
     documents (shop false) = before ++ doc :: after /\ id doc = 2 /\
     Forall (fun d => id d ≠ 2) before /\
     ItemService.get 2 (shop false) = (Fulfilled (toDTO doc), shop false)) /\
  (~ stored 3 (shop false) /\
   (ItemService.get 3 (shop false)).1 = Rejected ItemNotFoundError).
Proof.
  assert (Hin : stored 2 (shop false))
    by (apply stored_firstMatch; by eexists).
  assert (Hout : ~ stored 3 (shop false))
    by (by apply not_stored_firstMatch).
  split; split; [exact Hin | | exact Hout |].
  - exact (proj2 (get_not_found_iff_absent 2 (shop false)) Hin).
  - exact (proj2 (proj1 (get_not_found_iff_absent 3 (shop false))) Hout).
Defined.

Lemma create_then_get_witness :
  ~ stored (Dtos.id gadget) (emptyShop true) /\
  exists c',
    ItemService.create gadget (emptyShop true) = (Fulfilled gadget, c') /\
    ItemService.get (Dtos.id gadget) c' = (Fulfilled gadget, c').
Proof.
  assert (Hout : ~ stored (Dtos.id gadget) (emptyShop true))
    by (by apply not_stored_firstMatch).
  split; [exact Hout |]. exact (create_then_get gadget (emptyShop true) Hout).
Defined.

Lemma update_overwrites_name_price_only_witness :
  stored (Dtos.id cheaperWidget) (shop true) /\
  exists before doc after,
    documents (shop true) = before ++ doc :: after /\
    id doc = Dtos.id cheaperWidget /\
    Forall (fun d => id d ≠ Dtos.id cheaperWidget) before /\
    documents (ItemService.update cheaperWidget (shop true)).2 =
      before ++ {| id := id doc; name := Dtos.name cheaperWidget;
                   price := Dtos.price cheaperWidget |} :: after /\
    uniqueId (ItemService.update cheaperWidget (shop true)).2
      = uniqueId (shop true).
Proof.
  assert (Hin : stored (Dtos.id cheaperWidget) (shop true))
    by (apply stored_firstMatch; by eexists).
  split; [exact Hin |].
  exact (update_overwrites_name_price_only cheaperWidget (shop true) Hin).
Defined.

Lemma update_not_found_iff_absent_witness :
  (stored (Dtos.id cheaperWidget) (shop true) /\
   exists doc',
     firstMatch (Dtos.id cheaperWidget)
       (documents (ItemService.update cheaperWidget (shop true)).2)
       = Some doc' /\
     (ItemService.update cheaperWidget (shop true)).1
       = Fulfilled (toDTO doc')) /\
  (~ stored (Dtos.id cheaperWidget) (emptyShop true) /\
   (ItemService.update cheaperWidget (emptyShop true)).1
     = Rejected ItemNotFoundError /\
   (ItemService.update cheaperWidget (emptyShop true)).2 = emptyShop true).
Proof.
  assert (Hin : stored (Dtos.id cheaperWidget) (shop true))
    by (apply stored_firstMatch; by eexists).
  assert (Hout : ~ stored (Dtos.id cheaperWidget) (emptyShop true))
    by (by apply not_stored_firstMatch).
  destruct (update_not_found_iff_absent cheaperWidget (shop true))
    as (_ & _ & Hpost).
  destruct (update_not_found_iff_absent cheaperWidget (emptyShop true))
    as ([_ Hrej] & Hsame & _).
  split; [split; [exact Hin | exact (Hpost Hin)] |].
  split; [exact Hout |]. split; [exact (Hrej Hout) | exact (Hsame Hout)].
Defined.

Lemma delete_returns_null_witness :
  stored 2 (shop false) /\
  (ItemService.delete 2 (shop false)).1 = Fulfilled ItemService.null.
Proof.
  assert (Hin : stored 2 (shop false))
    by (apply stored_firstMatch; by eexists).
  split; [exact Hin |]. exact (proj1 (delete_returns_null 2 (shop false) Hin)).
Defined.

Lemma create_makes_no_duplicate_check_witness :
  stored (Dtos.id cheaperWidget) (shop false) /\
  ItemService.create cheaperWidget (shop false)
    = (Fulfilled cheaperWidget,
       withDocuments (shop false)
         (documents (shop false) ++ [Item cheaperWidget])) /\
  stored (Dtos.id cheaperWidget) (shop true) /\
  ItemService.create cheaperWidget (shop true)
    = (Rejected (StoreError (DuplicateKey 1)), shop true).
Proof.
  assert (Hin : stored (Dtos.id cheaperWidget) (shop true))
    by (apply stored_firstMatch; by eexists).
  destruct (create_makes_no_duplicate_check cheaperWidget)
    as (_ & Hfree & Hunique).
  split; [apply stored_firstMatch; by eexists |].
  split; [exact (Hfree (shop false) eq_refl) |].
  split; [exact Hin | exact (Hunique (shop true) eq_refl Hin)].
Defined.

Lemma configuration_from_environment_witness :
  Config.port (Config.configuration {[ "PORT" := "abc" ]}) = nan /\
  Config.port (Config.configuration {[ "PORT" := "8080" ]}) = 8080%float /\
  Config.port (Config.configuration {[ "PORT" := "" ]}) = 3000%float /\
  Config.dbConnectionString (Config.configuration ∅) = "".
Proof.
  split; [| split; [| split]].
  - destruct (configuration_from_environment {[ "PORT" := "abc" ]})
      as (_ & _ & Hport & _).
    destruct (Hport "abc") as [_ Hnan]; [reflexivity | discriminate |].
    apply Hnan. reflexivity.
  - destruct (configuration_from_environment {[ "PORT" := "8080" ]})
      as (_ & _ & Hport & _).
    destruct (Hport "8080") as [-> _]; [reflexivity | discriminate |].
    reflexivity.
  - destruct (configuration_from_environment {[ "PORT" := "" ]})
      as (_ & _ & _ & Hdefault & _).
    apply Hdefault. right. reflexivity.
  - destruct (configuration_from_environment ∅) as (_ & Hdb & _).
    apply Hdb. left. reflexivity.
Defined.

(** The scenario of the specification, run call by call. *)
Example widget_scenario :
  let s0 := emptyShop true in
  let '(r1, s1) := ItemService.create widget s0 in
  let '(r2, s2) := ItemService.get 1 s1 in
  let '(r3, s3) := ItemService.update cheaperWidget s2 in
  let '(r4, s4) := ItemService.get 1 s3 in
  let '(r5, s5) := ItemService.delete 1 s4 in
  let '(r6, s6) := ItemService.get 1 s5 in
  r1 = Fulfilled widget /\ r2 = Fulfilled widget /\
  r3 = Fulfilled cheaperWidget /\ r4 = Fulfilled cheaperWidget /\
  r5 = Fulfilled ItemService.null /\ r6 = Rejected ItemNotFoundError /\
  s6 = s0.
Proof. repeat split. Qed.

Example list_after_three_creates :
  let s0 := emptyShop true in
  let s3 :=
    (ItemService.create gizmo
       (ItemService.create gadget (ItemService.create widget s0).2).2).2 in
  ItemService.list s0 = (Fulfilled [], s0) /\
  ItemService.list s3 = (Fulfilled [widget; gadget; gizmo], s3).
Proof. split; reflexivity. Qed.

End Scenario.


(** * How the calls compose *)

Section Composition.
Import Models Mongo Errors Utils.
Context {Price : Type}.
Implicit Types (docs : list (DocumentItem Price)) (doc : DocumentItem Price)
  (c : Collection Price) (i j : Z) (dto : Dtos.ItemDTO Price)
  (p : string * Price).

Lemma matches_patch j p doc : matches j (patch p doc) = matches j doc.
Proof. reflexivity. Qed.

Lemma firstMatch_updateFirst i j p docs :
  firstMatch j (updateFirst i p docs) =
  if decide (i = j) then patch p <$> firstMatch j docs else firstMatch j docs.
Proof.
  induction docs as [|doc rest IH]; simpl.
  - by case_decide.
  - destruct (matches i doc) eqn:Hi; simpl.
    + rewrite matches_patch. apply matches_true in Hi.
      case_decide as Hij.
      * subst j. apply matches_true in Hi. by rewrite Hi.
      * destruct (matches j doc) eqn:Hj; [| done].
        apply matches_true in Hj. congruence.
    + destruct (matches j doc) eqn:Hj; [| exact IH].
      case_decide as Hij; [| done].
      subst j. congruence.
Qed.

Lemma firstMatch_deleteFirst_other i j docs :
  i ≠ j -> firstMatch j (deleteFirst i docs) = firstMatch j docs.
Proof.
  intros Hij. induction docs as [|doc rest IH]; simpl; [done |].
  destruct (matches i doc) eqn:Hi; simpl.
  - apply matches_true in Hi.
    destruct (matches j doc) eqn:Hj; [| done].
    apply matches_true in Hj. congruence.
  - by rewrite IH.
Qed.

Lemma firstMatch_snoc j docs doc :
  firstMatch j (docs ++ [doc]) =
  match firstMatch j docs with
  | Some found => Some found
  | None => if matches j doc then Some doc else None
  end.
Proof.
  induction docs as [|d rest IH]; simpl; [done |].
  by destruct (matches j d).
Qed.

Lemma updateFirst_again i p q docs :
  updateFirst i q (updateFirst i p docs) = updateFirst i q docs.
Proof.
  induction docs as [|doc rest IH]; simpl; [done |].
  destruct (matches i doc) eqn:Hi; simpl.
  - by rewrite matches_patch, Hi.
  - by rewrite Hi, IH.
Qed.

Lemma deleteFirst_snoc i docs doc :
  firstMatch i docs = None -> id doc = i ->
  deleteFirst i (docs ++ [doc]) = docs.
Proof.
  intros Hnone%firstMatch_None Hid.
  rewrite (deleteFirst_split i docs doc []) by done. apply app_nil_r.
Qed.

Lemma toDTO_patch dto doc :
  id doc = Dtos.id dto ->
  toDTO (patch (Dtos.name dto, Dtos.price dto) doc) = dto.
Proof. intros Hid. destruct dto. unfold toDTO, patch. simpl in *. by rewrite Hid. Qed.

Lemma firstMatch_id i docs doc : firstMatch i docs = Some doc -> id doc = i.
Proof. by intros (_ & _ & _ & Hid & _)%firstMatch_Some. Qed.

(** X1: when a document with the [id] of [dto] is stored, [update(dto)] is
    fulfilled with [dto] itself, and a following [get(dto.id)] is fulfilled
    with [dto] and changes nothing. *)
Theorem update_then_get dto c :
  stored (Dtos.id dto) c ->
  (ItemService.update dto c).1 = Fulfilled dto /\
  ItemService.get (Dtos.id dto) (ItemService.update dto c).2
    = (Fulfilled dto, (ItemService.update dto c).2).
Proof.
  intros [doc Hf]%stored_firstMatch.
  rewrite get_collection, update_collection, Hf. simpl.
  rewrite firstMatch_updateFirst, Hf. case_decide; [simpl | done].
  by rewrite (toDTO_patch dto doc (firstMatch_id _ _ _ Hf)).
Qed.

(** X2: of two [update] calls for the same [id] the last one wins: the
    second settles, and leaves the collection, as if the first had not been
    made.  In particular [update(dto)] is idempotent. *)
Theorem update_last_write_wins dto1 dto2 c :
  Dtos.id dto1 = Dtos.id dto2 ->
  ItemService.update dto2 (ItemService.update dto1 c).2
    = ItemService.update dto2 c.
Proof.
  intros Hid. rewrite (update_collection dto1 c), Hid.
  destruct (firstMatch (Dtos.id dto2) (documents c)) as [doc|] eqn:Hf; simpl.
  - rewrite !update_collection. simpl.
    rewrite firstMatch_updateFirst, Hf. case_decide; [simpl | done].
    by rewrite updateFirst_again.
  - by rewrite update_collection, Hf.
Qed.

(** X3: a call about one [id] does not change what [get] answers for
    another: after [create], [update] or [delete] on [i], [get(j)] for
    [j ≠ i] settles as it would have before. *)
Theorem get_unaffected_by_other_ids i j c :
  i ≠ j ->
  (forall dto, Dtos.id dto = i ->
     (ItemService.get j (ItemService.create dto c).2).1
       = (ItemService.get j c).1) /\
  (forall dto, Dtos.id dto = i ->
     (ItemService.get j (ItemService.update dto c).2).1
       = (ItemService.get j c).1) /\
  (ItemService.get j (ItemService.delete i c).2).1 = (ItemService.get j c).1.
Proof.
  intros Hij. split; [| split].
  - intros dto Hdto. rewrite !get_collection, create_collection.
    assert (Hmiss : matches j (Item dto) = false)
      by (apply matches_false; simpl; congruence).
    destruct (uniqueId c), (firstMatch (Dtos.id dto) (documents c));
      simpl; rewrite ?firstMatch_snoc, ?Hmiss;
      by destruct (firstMatch j (documents c)).
  - intros dto Hdto. rewrite !get_collection, update_collection.
    destruct (firstMatch (Dtos.id dto) (documents c)); simpl; [| done].
    rewrite firstMatch_updateFirst. case_decide; [congruence |].
    by destruct (firstMatch j (documents c)).
  - rewrite !get_collection, delete_collection.
    destruct (firstMatch i (documents c)); simpl; [| done].
    rewrite firstMatch_deleteFirst_other by done.
    by destruct (firstMatch j (documents c)).
Qed.

(** X5: a [create(dto)] with an [id] that is not stored, followed by
    [delete(dto.id)], gives back the collection as it was. *)
Theorem create_then_delete dto c :
  ~ stored (Dtos.id dto) c ->
  (ItemService.create dto c).1 = Fulfilled dto /\
  ItemService.delete (Dtos.id dto) (ItemService.create dto c).2
    = (Fulfilled ItemService.null, c).
Proof.
  intros Habs%not_stored_firstMatch.
  rewrite delete_collection, create_collection, Habs.
  assert (Hnew : firstMatch (Dtos.id dto) (documents c ++ [Item dto])
                 = Some (Item dto)).
  { rewrite firstMatch_snoc, Habs. unfold matches. simpl.
    by rewrite Z.eqb_refl. }
  destruct (uniqueId c) eqn:Hu; simpl; rewrite Hnew;
    (split; [done |]); rewrite deleteFirst_snoc by done;
    by destruct c; simpl in *; subst.
Qed.

(** X6: a [create(dto)] with an [id] that is stored already does not show
    in [get(dto.id)]: rejected by the unique index, or fulfilled and
    appended without it, [get] still answers with the document that was
    there first. *)
Theorem get_after_duplicate_create dto c :
  stored (Dtos.id dto) c ->
  (ItemService.get (Dtos.id dto) (ItemService.create dto c).2).1
    = (ItemService.get (Dtos.id dto) c).1.
Proof.
  intros [doc Hf]%stored_firstMatch.
  rewrite !get_collection, create_collection, Hf.
  destruct (uniqueId c); simpl; by rewrite ?firstMatch_snoc, Hf.
Qed.

End Composition.

(** * What the calls keep *)

Section Invariants.
Import Models Mongo Errors Utils Session.
Context {Price : Type}.
Implicit Types (docs : list (DocumentItem Price)) (doc : DocumentItem Price)
  (c : Collection Price) (i j : Z) (dto : Dtos.ItemDTO Price)
  (p : string * Price).

Lemma firstMatch_None_ids i docs :
  firstMatch i docs = None <-> i ∉ id <$> docs.
Proof.
  rewrite firstMatch_None, Forall_forall, list_elem_of_fmap. split.
  - intros Hall (doc & -> & Hin). by apply (Hall doc).
  - intros Hno doc Hin Hid. apply Hno. by exists doc.
Qed.

Lemma ids_updateFirst i p docs : id <$> updateFirst i p docs = id <$> docs.
Proof.
  induction docs as [|doc rest IH]; cbn [updateFirst]; [done |].
  destruct (matches i doc); [done |]. by rewrite !fmap_cons, IH.
Qed.

Lemma ids_deleteFirst i docs doc :
  firstMatch i docs = Some doc ->
  exists before after,
    (id <$> docs) = before ++ i :: after /\ (i ∉ before) /\
    (id <$> deleteFirst i docs) = before ++ after.
Proof.
  intros (before & after & -> & Hid & Hb)%firstMatch_Some.
  exists (id <$> before), (id <$> after).
  rewrite deleteFirst_split, !fmap_app, fmap_cons, Hid by done.
  split; [done |]. split; [| done].
  rewrite list_elem_of_fmap. intros (d & -> & Hin).
  rewrite Forall_forall in Hb. by apply (Hb d).
Qed.

Lemma NoDup_without_middle (before after : list Z) i :
  NoDup (before ++ i :: after) -> NoDup (before ++ after) /\ i ∉ before ++ after.
Proof.
  rewrite !NoDup_app, NoDup_cons, elem_of_app.
  intros (Hb & Hdisj & Hi & Ha). split.
  - split; [done |]. split; [| done].
    intros x Hx Hxa. apply (Hdisj x Hx). by right.
  - intros [Hib | Hia]; [| done]. apply (Hdisj i Hib). by left.
Qed.

Lemma update_keeps_uniqueIds dto c :
  uniqueIds c -> uniqueIds (ItemService.update dto c).2.
Proof.
  unfold uniqueIds. rewrite update_collection.
  destruct (firstMatch (Dtos.id dto) (documents c)); simpl; [| done].
  by rewrite ids_updateFirst.
Qed.

Lemma delete_keeps_uniqueIds i c :
  uniqueIds c -> uniqueIds (ItemService.delete i c).2.
Proof.
  unfold uniqueIds. rewrite delete_collection.
  destruct (firstMatch i (documents c)) as [doc|] eqn:Hf; simpl; [| done].
  destruct (ids_deleteFirst i _ doc Hf) as (before & after & -> & _ & ->).
  by intros [? _]%NoDup_without_middle.
Qed.

Lemma create_keeps_uniqueIds dto c :
  uniqueId c = true -> uniqueIds c -> uniqueIds (ItemService.create dto c).2.
Proof.
  unfold uniqueIds. intros Hu Hc. rewrite create_collection, Hu.
  destruct (firstMatch (Dtos.id dto) (documents c)) eqn:Hf; simpl; [done |].
  apply firstMatch_None_ids in Hf. rewrite fmap_app, NoDup_app. simpl.
  split; [done |]. split; [| apply NoDup_singleton].
  intros x Hx ->%list_elem_of_singleton. done.
Qed.

Lemma perform_keeps_index (k : call Price) c :
  uniqueId (perform k c) = uniqueId c.
Proof.
  destruct k as [|i|dto|dto|i]; simpl.
  - done.
  - rewrite get_collection. by destruct (firstMatch i (documents c)); simpl.
  - rewrite create_collection.
    by destruct (uniqueId c) eqn:Hu,
      (firstMatch (Dtos.id dto) (documents c)); simpl.
  - rewrite update_collection.
    by destruct (firstMatch (Dtos.id dto) (documents c)); simpl.
  - rewrite delete_collection.
    by destruct (firstMatch i (documents c)); simpl.
Qed.

Lemma perform_keeps_uniqueIds (k : call Price) c :
  uniqueId c = true -> uniqueIds c -> uniqueIds (perform k c).
Proof.
  intros Hu Hc. destruct k as [|i|dto|dto|i]; simpl.
  - done.
  - rewrite get_collection. by destruct (firstMatch i (documents c)); simpl.
  - by apply create_keeps_uniqueIds.
  - by apply update_keeps_uniqueIds.
  - by apply delete_keeps_uniqueIds.
Qed.

(** C5: [delete(id)] is rejected with [ItemNotFoundError] exactly when no
    stored document has that [id], and then the collection is unchanged.
    In a collection as the data model has it, where an [id] identifies at
    most one stored document, [delete(id)] of a stored [id] removes that one
    document, the only one with the [id], and nothing else, so that a
    following [get(id)] is rejected with [ItemNotFoundError]. *)
Theorem delete_not_found_iff_absent i c :
  ((ItemService.delete i c).1 = Rejected ItemNotFoundError <-> ~ stored i c) /\
  (~ stored i c -> (ItemService.delete i c).2 = c) /\
  (uniqueIds c -> stored i c ->
   exists before doc after,
     documents c = before ++ doc :: after /\ id doc = i /\
     Forall (fun d => id d ≠ i) (before ++ after) /\
     documents (ItemService.delete i c).2 = before ++ after /\
     uniqueId (ItemService.delete i c).2 = uniqueId c /\
     ItemService.get i (ItemService.delete i c).2
       = (Rejected ItemNotFoundError, (ItemService.delete i c).2)).
Proof.
  rewrite delete_collection, not_stored_firstMatch.
  destruct (firstMatch i (documents c)) as [doc|] eqn:Hf; simpl.
  - split; [split; discriminate |]. split; [discriminate |]. intros Hc _.
    assert (Hgone : firstMatch i (deleteFirst i (documents c)) = None).
    { apply firstMatch_None_ids.
      destruct (ids_deleteFirst i _ doc Hf)
        as (ids1 & ids2 & Hids & _ & ->).
      unfold uniqueIds in Hc. rewrite Hids in Hc.
      by apply NoDup_without_middle in Hc as [_ ?]. }
    apply firstMatch_Some in Hf as (before & after & Heq & Hid & Hb).
    exists before, doc, after. rewrite get_collection. simpl. rewrite Hgone.
    rewrite Heq, deleteFirst_split in * by done.
    repeat split; try done. by apply firstMatch_None.
  - split; [done |]. split; [done |].
    intros _ [found Hfound]%stored_firstMatch. congruence.
Qed.

(** X7: [get(id)] answers with the first entry of [list()] that has the
    [id], and is rejected, with [ItemNotFoundError], exactly when [list()]
    has no entry with it. *)
Theorem get_agrees_with_list i c :
  exists listed,
    ItemService.list c = (Fulfilled listed, c) /\
    match (ItemService.get i c).1 with
    | Fulfilled dto =>
        exists before after,
          listed = before ++ dto :: after /\ Dtos.id dto = i /\
          Forall (fun d => Dtos.id d ≠ i) before
    | Rejected e =>
        e = ItemNotFoundError /\ Forall (fun d => Dtos.id d ≠ i) listed
    end.
Proof.
  exists (map toDTO (documents c)). split; [apply list_collection |].
  rewrite get_collection.
  destruct (firstMatch i (documents c)) as [doc|] eqn:Hf; simpl.
  - apply firstMatch_Some in Hf as (before & after & -> & Hid & Hb).
    exists (map toDTO before), (map toDTO after).
    rewrite map_app. split; [done |]. split; [done |].
    rewrite Forall_forall in Hb. apply Forall_forall. intros d Hd.
    apply list_elem_of_In, in_map_iff in Hd as (x & <- & Hx).
    by apply (Hb x), list_elem_of_In.
  - split; [done |]. apply firstMatch_None in Hf.
    rewrite Forall_forall in Hf. apply Forall_forall. intros d Hd.
    apply list_elem_of_In, in_map_iff in Hd as (x & <- & Hx).
    by apply (Hf x), list_elem_of_In.
Qed.

(** X8: after a fulfilled [create(dto)], [list()] answers what it answered
    before with [dto] added at the end. *)
Theorem list_after_create dto c created :
  (ItemService.create dto c).1 = Fulfilled created ->
  exists listed,
    (ItemService.list c).1 = Fulfilled listed /\
    (ItemService.list (ItemService.create dto c).2).1
      = Fulfilled (listed ++ [dto]).
Proof.
  intros Hok. exists (map toDTO (documents c)). split; [done |].
  rewrite list_collection. revert Hok. rewrite create_collection.
  destruct (uniqueId c), (firstMatch (Dtos.id dto) (documents c));
    simpl; try discriminate; intros _; rewrite map_app; simpl;
    by destruct dto.
Qed.

(** X9: the stored ids under the three writing calls: a fulfilled
    [create(dto)] adds the [id] of [dto] at the end; [update(dto)] leaves
    them as they are, fulfilled or not; [delete(i)] on a stored [i] removes
    the first occurrence of [i] and nothing else. *)
Theorem stored_ids_after_a_call c :
  (forall dto created,
     (ItemService.create dto c).1 = Fulfilled created ->
     (id <$> documents (ItemService.create dto c).2)
       = (id <$> documents c) ++ [Dtos.id dto]) /\
  (forall dto,
     (id <$> documents (ItemService.update dto c).2) = (id <$> documents c)) /\
  (forall i,
     stored i c ->
     exists before after,
       (id <$> documents c) = before ++ i :: after /\ (i ∉ before) /\
       (id <$> documents (ItemService.delete i c).2) = before ++ after).
Proof.
  split; [| split].
  - intros dto created. rewrite create_collection.
    destruct (uniqueId c), (firstMatch (Dtos.id dto) (documents c));
      simpl; try discriminate; intros _; by rewrite fmap_app.
  - intros dto. rewrite update_collection.
    destruct (firstMatch (Dtos.id dto) (documents c)); simpl; [| done].
    apply ids_updateFirst.
  - intros i [doc Hf]%stored_firstMatch. rewrite delete_collection, Hf.
    simpl. by apply (ids_deleteFirst i _ doc).
Qed.

(** X10: [update] and [delete] keep the stored ids pairwise different, and
    so does [create] on a collection with the unique index; without the
    index a [create] with a stored [id] ends that. *)
Theorem each_call_on_unique_ids c :
  uniqueIds c ->
  (forall dto, uniqueIds (ItemService.update dto c).2) /\
  (forall i, uniqueIds (ItemService.delete i c).2) /\
  (forall dto, uniqueId c = true -> uniqueIds (ItemService.create dto c).2) /\
  (forall dto, uniqueId c = false -> stored (Dtos.id dto) c ->
     ~ uniqueIds (ItemService.create dto c).2).
Proof.
  intros Hc. split; [| split; [| split]].
  - intros dto. by apply update_keeps_uniqueIds.
  - intros i. by apply delete_keeps_uniqueIds.
  - intros dto Hu. by apply create_keeps_uniqueIds.
  - intros dto Hu [doc Hf]%stored_firstMatch. unfold uniqueIds.
    rewrite create_collection, Hu. simpl. rewrite fmap_app, NoDup_app.
    intros (_ & Hdisj & _). apply (Hdisj (Dtos.id dto)); simpl.
    + apply firstMatch_Some in Hf as (before & after & -> & <- & _).
      rewrite fmap_app, fmap_cons. set_solver.
    + set_solver.
Qed.

(** X11: on a collection with the unique index, whatever calls are made one
    after the other, fulfilled or rejected, the stored ids stay pairwise
    different and the index stays on; so it is for every collection the
    service builds up from the empty one. *)
Theorem sessions_keep_ids_unique (ks : list (call Price)) c :
  uniqueId c = true -> uniqueIds c ->
  uniqueId (performAll ks c) = true /\ uniqueIds (performAll ks c).
Proof.
  revert c. induction ks as [|k ks IH]; intros c Hu Hc; simpl; [done |].
  apply IH.
  - by rewrite perform_keeps_index.
  - by apply perform_keeps_uniqueIds.
Qed.

(** X12: where the stored ids are pairwise different, a [delete(id)] of a
    stored [id] is fulfilled, and afterwards both [get(id)] and a second
    [delete(id)] are rejected with [ItemNotFoundError]. *)
Theorem delete_then_get_on_unique_ids i c :
  uniqueIds c -> stored i c ->
  (ItemService.delete i c).1 = Fulfilled ItemService.null /\
  (ItemService.get i (ItemService.delete i c).2).1
    = Rejected ItemNotFoundError /\
  (ItemService.delete i (ItemService.delete i c).2).1
    = Rejected ItemNotFoundError.
Proof.
  unfold uniqueIds. intros Hc [doc Hf]%stored_firstMatch.
  rewrite get_collection, !delete_collection, Hf. simpl.
  assert (Hgone : firstMatch i (deleteFirst i (documents c)) = None).
  { apply firstMatch_None_ids.
    destruct (ids_deleteFirst i _ doc Hf) as (before & after & Hids & _ & ->).
    rewrite Hids in Hc. by apply NoDup_without_middle in Hc as [_ ?]. }
  by rewrite Hgone.
Qed.

End Invariants.

(** * The environment the configuration is read from *)

Section Environment.
Import Config Numerals.
Local Open Scope string_scope.

Lemma dotenv_config_set file (env : gmap string string) k v :
  env !! k = Some v -> dotenv_config file env !! k = Some v.
Proof.
  intros Hk. unfold dotenv_config. rewrite lookup_union, Hk.
  by destruct (default ∅ file !! k).
Qed.

Lemma dotenv_config_unset file (env : gmap string string) k :
  env !! k = None -> dotenv_config file env !! k = default ∅ file !! k.
Proof.
  intros Hk. unfold dotenv_config. rewrite lookup_union, Hk.
  by destruct (default ∅ file !! k).
Qed.

Lemma digit_not_space c : isDecimalDigit c = true -> isWhiteSpace c = false.
Proof.
  destruct c as [[] [] [] [] [] [] [] []]; intros Hd;
    first [by vm_compute in Hd | by vm_compute].
Qed.

Lemma trimStart_white ws c t :
  allWhiteSpace ws = true -> isWhiteSpace c = false ->
  trimStart (ws +:+ String c t) = String c t.
Proof.
  intros Hws Hc. induction ws as [|w ws IH]; simpl in *.
  - by rewrite Hc.
  - apply andb_true_iff in Hws as [-> Hws]. by apply IH.
Qed.

Lemma radixDigits_no_digit rest :
  startsWithDecimalDigit rest = false -> radixDigits 10 rest = [].
Proof.
  destruct rest as [|c t]; simpl; [done |]. unfold isDecimalDigit.
  destruct (digitValue c) as [d|]; [| done]. by intros ->.
Qed.

Lemma radixDigits_prefix digits rest :
  allDecimalDigits digits = true -> startsWithDecimalDigit rest = false ->
  radixDigits 10 (digits +:+ rest) = radixDigits 10 digits.
Proof.
  intros Hd Hrest. induction digits as [|c ds IH]; simpl in *.
  - by apply radixDigits_no_digit.
  - apply andb_true_iff in Hd as [Hc Hds]. unfold isDecimalDigit in Hc.
    destruct (digitValue c) as [d|]; [| done]. by rewrite Hc, IH.
Qed.

(** [parseInt] with radix 10, by the sign and the digits it reads. *)
Lemma parseInt_decimal s :
  parseInt s 10 =
  let sign := match trimStart s with String "-"%char _ => -1 | _ => 1 end in
  match radixDigits 10 (stripSign (trimStart s)) with
  | [] => nan
  | ds =>
      let m := mathInt 10 ds in
      if (m =? 0)%Z then (if (sign =? -1)%Z then neg_zero else PrimFloat.zero)
      else toNumber (sign * m)
  end.
Proof. reflexivity. Qed.

(** X13: a variable set in the process environment, be it to the empty
    string, is what the configuration reads, whatever the dotenv file
    says; only a variable that is not set is taken from the file; with no
    file the configuration is that of the process environment.  So a [PORT]
    set to the empty string gives port 3000 even when the file has one. *)
Theorem environment_wins_over_dotenv_file file (env : gmap string string) :
  (forall s, env !! "PORT" = Some s ->
     port (load file env) = port (configuration env)) /\
  (forall s, env !! "DB_CONNECTION_STRING" = Some s ->
     dbConnectionString (load file env)
       = dbConnectionString (configuration env)) /\
  (env !! "PORT" = None ->
     port (load file env) = port (configuration (default ∅ file))) /\
  (env !! "DB_CONNECTION_STRING" = None ->
     dbConnectionString (load file env)
       = dbConnectionString (configuration (default ∅ file))) /\
  (env !! "PORT" = Some "" -> port (load file env) = 3000%float) /\
  load None env = configuration env.
Proof.
  unfold load, configuration. simpl.
  split; [| split; [| split; [| split; [| split]]]].
  - intros s Hs. by rewrite (dotenv_config_set file env _ s Hs), Hs.
  - intros s Hs. by rewrite (dotenv_config_set file env _ s Hs), Hs.
  - intros Hs. by rewrite (dotenv_config_unset file env _ Hs).
  - intros Hs. by rewrite (dotenv_config_unset file env _ Hs).
  - intros Hs. by rewrite (dotenv_config_set file env _ "" Hs).
  - unfold dotenv_config. simpl. by rewrite (right_id_L ∅ (∪)).
Qed.

(** X14: the port is read from the leading decimal digits of [PORT] and
    nothing is checked beyond them: white space before the digits and
    whatever follows them, from the first character that is not a decimal
    digit on, make no difference to the port. *)
Theorem port_reads_numeric_prefix (ws digits rest : string)
    (env : gmap string string) :
  allWhiteSpace ws = true ->
  digits ≠ "" -> allDecimalDigits digits = true ->
  startsWithDecimalDigit rest = false ->
  port (configuration (<["PORT" := ws +:+ digits +:+ rest]> env))
    = port (configuration (<["PORT" := digits]> env)).
Proof.
  intros Hws Hne Hd Hrest. unfold configuration. simpl.
  rewrite !lookup_insert_eq.
  destruct digits as [|c ds]; [done |]. simpl in Hd.
  apply andb_true_iff in Hd as [Hc Hds].
  assert (Hfull : ws +:+ String c ds +:+ rest ≠ "")
    by (destruct ws; discriminate).
  rewrite !orElse_set by done. rewrite !parseInt_decimal.
  change (String c ds +:+ rest) with (String c (ds +:+ rest)).
  rewrite trimStart_white by (done || by apply digit_not_space).
  destruct c as [[] [] [] [] [] [] [] []]; try (by vm_compute in Hc);
    simpl; by rewrite radixDigits_prefix.
Qed.

End Environment.

(** * The compositions at the sample data *)

Section ScenarioOfCompositions.
Import Models Mongo Errors Utils Samples Session.

Lemma shop_stores_widget unique : stored 1 (shop unique).
Proof. apply stored_firstMatch. by eexists. Qed.

Lemma shop_has_unique_ids unique : uniqueIds (shop unique).
Proof.
  unfold uniqueIds. simpl. apply NoDup_cons.
  split; [by intros ?%list_elem_of_singleton |].
  apply NoDup_singleton.
Qed.

Lemma delete_not_found_iff_absent_witness :
  (uniqueIds (shop true) /\ stored 1 (shop true) /\
   exists before doc after,
     documents (shop true) = before ++ doc :: after /\ id doc = 1 /\
     Forall (fun d => id d ≠ 1) (before ++ after) /\
     documents (ItemService.delete 1 (shop true)).2 = before ++ after /\
     uniqueId (ItemService.delete 1 (shop true)).2 = uniqueId (shop true) /\
     ItemService.get 1 (ItemService.delete 1 (shop true)).2
       = (Rejected ItemNotFoundError, (ItemService.delete 1 (shop true)).2)) /\
  (~ stored 3 (shop true) /\
   (ItemService.delete 3 (shop true)).1 = Rejected ItemNotFoundError /\
   (ItemService.delete 3 (shop true)).2 = shop true).
Proof.
  assert (Hout : ~ stored 3 (shop true))
    by (by apply not_stored_firstMatch).
  destruct (delete_not_found_iff_absent 1 (shop true)) as (_ & _ & Hrem).
  destruct (delete_not_found_iff_absent 3 (shop true))
    as ([_ Hrej] & Hsame & _).
  split.
  - split; [apply shop_has_unique_ids |]. split; [apply shop_stores_widget |].
    exact (Hrem (shop_has_unique_ids true) (shop_stores_widget true)).
  - split; [exact Hout |]. split; [exact (Hrej Hout) | exact (Hsame Hout)].
Defined.

Lemma update_then_get_witness :
  stored (Dtos.id cheaperWidget) (shop true) /\
  (ItemService.update cheaperWidget (shop true)).1 = Fulfilled cheaperWidget /\
  ItemService.get (Dtos.id cheaperWidget)
    (ItemService.update cheaperWidget (shop true)).2
    = (Fulfilled cheaperWidget,
       (ItemService.update cheaperWidget (shop true)).2).
Proof.
  split; [apply shop_stores_widget |].
  exact (update_then_get cheaperWidget (shop true) (shop_stores_widget true)).
Defined.

Lemma update_last_write_wins_witness :
  Dtos.id widget = Dtos.id cheaperWidget /\
  ItemService.update cheaperWidget (ItemService.update widget (shop false)).2
    = ItemService.update cheaperWidget (shop false).
Proof.
  split; [reflexivity |].
  exact (update_last_write_wins widget cheaperWidget (shop false) eq_refl).
Defined.

Lemma get_unaffected_by_other_ids_witness :
  1 ≠ 2 /\
  (ItemService.get 2 (ItemService.update cheaperWidget (shop true)).2).1
    = (ItemService.get 2 (shop true)).1 /\
  (ItemService.get 2 (ItemService.delete 1 (shop true)).2).1
    = (ItemService.get 2 (shop true)).1.
Proof.
  assert (Hne : 1 ≠ 2) by discriminate.
  destruct (get_unaffected_by_other_ids 1 2 (shop true) Hne)
    as (_ & Hupdate & Hdelete).
  split; [exact Hne |]. split; [exact (Hupdate cheaperWidget eq_refl) |].
  exact Hdelete.
Defined.

Lemma create_then_delete_witness :
  ~ stored (Dtos.id gizmo) (shop true) /\
  (ItemService.create gizmo (shop true)).1 = Fulfilled gizmo /\
  ItemService.delete (Dtos.id gizmo) (ItemService.create gizmo (shop true)).2
    = (Fulfilled ItemService.null, shop true).
Proof.
  assert (Hout : ~ stored (Dtos.id gizmo) (shop true))
    by (by apply not_stored_firstMatch).
  split; [exact Hout |]. exact (create_then_delete gizmo (shop true) Hout).
Defined.

Lemma get_after_duplicate_create_witness :
  stored (Dtos.id cheaperWidget) (shop false) /\
  (ItemService.get (Dtos.id cheaperWidget)
     (ItemService.create cheaperWidget (shop false)).2).1
    = (ItemService.get (Dtos.id cheaperWidget) (shop false)).1.
Proof.
  split; [apply shop_stores_widget |].
  exact (get_after_duplicate_create cheaperWidget (shop false)
           (shop_stores_widget false)).
Defined.

Lemma list_after_create_witness :
  (ItemService.create gizmo (shop true)).1 = Fulfilled gizmo /\
  exists listed,
    (ItemService.list (shop true)).1 = Fulfilled listed /\
    (ItemService.list (ItemService.create gizmo (shop true)).2).1
      = Fulfilled (listed ++ [gizmo]).
Proof.
  split; [reflexivity |].
  exact (list_after_create gizmo (shop true) gizmo eq_refl).
Defined.

Lemma each_call_on_unique_ids_witness :
  uniqueIds (shop false) /\
  uniqueIds (ItemService.update cheaperWidget (shop false)).2 /\
  uniqueIds (ItemService.delete 2 (shop false)).2 /\
  ~ uniqueIds (ItemService.create cheaperWidget (shop false)).2.
Proof.
  destruct (each_call_on_unique_ids (shop false) (shop_has_unique_ids false))
    as (Hupdate & Hdelete & _ & Hcreate).
  split; [apply shop_has_unique_ids |]. split; [apply Hupdate |].
  split; [apply Hdelete |].
  exact (Hcreate cheaperWidget eq_refl (shop_stores_widget false)).
Defined.

Lemma sessions_keep_ids_unique_witness :
  let calls :=
    [Create widget; Create cheaperWidget; Update cheaperWidget; Create gadget;
     Delete 1; Get 1; Create gizmo; List] in
  uniqueId (emptyShop true) = true /\ uniqueIds (emptyShop true) /\
  documents (performAll calls (emptyShop true)) = [Item gadget; Item gizmo] /\
  uniqueId (performAll calls (emptyShop true)) = true /\
  uniqueIds (performAll calls (emptyShop true)).
Proof.
  intros calls.
  assert (Hempty : uniqueIds (emptyShop true)) by apply NoDup_nil_2.
  split; [reflexivity |]. split; [exact Hempty |]. split; [reflexivity |].
  exact (sessions_keep_ids_unique calls (emptyShop true) eq_refl Hempty).
Defined.

Lemma delete_then_get_on_unique_ids_witness :
  uniqueIds (shop false) /\ stored 1 (shop false) /\
  (ItemService.delete 1 (shop false)).1 = Fulfilled ItemService.null /\
  (ItemService.get 1 (ItemService.delete 1 (shop false)).2).1
    = Rejected ItemNotFoundError /\
  (ItemService.delete 1 (ItemService.delete 1 (shop false)).2).1
    = Rejected ItemNotFoundError.
Proof.
  split; [apply shop_has_unique_ids |]. split; [apply shop_stores_widget |].
  exact (delete_then_get_on_unique_ids 1 (shop false)
           (shop_has_unique_ids false) (shop_stores_widget false)).
Defined.

Lemma port_reads_numeric_prefix_witness :
  Numerals.allWhiteSpace " " = true /\ "8080" ≠ "" /\
  Numerals.allDecimalDigits "8080" = true /\
  Numerals.startsWithDecimalDigit "abc" = false /\
  Config.port (Config.configuration {[ "PORT" := " 8080abc" ]})
    = Config.port (Config.configuration {[ "PORT" := "8080" ]}) /\
  Config.port (Config.configuration {[ "PORT" := " 8080abc" ]}) = 8080%float.
Proof.
  assert (Hne : "8080" ≠ "") by discriminate.
  split; [reflexivity |]. split; [exact Hne |]. split; [reflexivity |].
  split; [reflexivity |]. split; [| reflexivity].
  pose proof (port_reads_numeric_prefix " " "8080" "abc" ∅
                eq_refl Hne eq_refl eq_refl) as Hport.
  by rewrite !insert_empty in Hport.
Defined.

Lemma environment_wins_over_dotenv_file_witness :
  let file : option (gmap string string) :=
    Some {[ "PORT" := "8080"; "DB_CONNECTION_STRING" := "mongodb://file" ]} in
  let env : gmap string string := {[ "PORT" := "" ]} in
  Config.port (Config.load file env) = 3000%float /\
  Config.dbConnectionString (Config.load file env) = "mongodb://file".
Proof.
  intros file env.
  destruct (environment_wins_over_dotenv_file file env)
    as (_ & _ & _ & Hdb & Hport & _).
  split; [by apply Hport |]. by rewrite Hdb.
Defined.

End ScenarioOfCompositions.
